(** * Account service (web-api/src/modules/security/services/account.service.ts)

    A shallow embedding of [AccountService]: credential verification, lookup,
    activation by token, creation and update of user accounts, over the
    [Users] model of the database context and the injected collaborators. *)

From stdpp Require Import gmap strings list fin_maps pretty.
From Stdlib Require Import ZArith.

Local Open Scope Z_scope.

(** ** JavaScript values and objects *)

(** The values a property of a [User], a [Partial<User>] or a decoded token
    holds.  A number is an integer here (ids, audit references); a [Date] is
    its time value. *)
Inductive Val : Type :=
  | VUndefined
  | VNull
  | VBool (b : bool)
  | VNum (n : Z)
  | VStr (s : string)
  | VDate (t : Z).

#[global] Instance Val_eq_dec : EqDecision Val.
Proof. solve_decision. Defined.

(** A plain object: property name to value.  An absent property reads as
    [undefined]. *)
Abbreviation Obj := (gmap string Val).

Definition get (k : string) (o : Obj) : Val := default VUndefined (o !! k).

(** JavaScript truthiness, as tested by [if (userPartial.password)]. *)
Definition truthy (v : Val) : bool :=
  match v with
  | VUndefined | VNull => false
  | VBool b => b
  | VNum n => negb (Z.eqb n 0)
  | VStr s => negb (String.eqb s "")
  | VDate _ => true
  end.

(** [isNil] of common/utils (not among the visible sources; the usual test,
    as in lodash): the value is [null] or [undefined].  The service applies it
    to property values, to a record-or-null, to an array and to a result
    tuple; an array or a tuple is a value and never nil. *)
Class Nilable (A : Type) := isNil : A -> bool.

#[global] Instance Val_nilable : Nilable Val :=
  fun v => match v with VUndefined | VNull => true | _ => false end.
#[global] Instance option_nilable {A} : Nilable (option A) :=
  fun o => match o with None => true | Some _ => false end.
#[global] Instance list_nilable {A} : Nilable (list A) := fun _ => false.
#[global] Instance pair_nilable {A B} : Nilable (A * B) := fun _ => false.

(** ** Errors *)

(** [InvalidRequestError({httpStatusCode?, message, name})] of common/error and
    the built-in [Error] and [TypeError]. *)
Inductive JsError : Type :=
  | InvalidRequestError (httpStatusCode : option Z) (message name : string)
  | Error (message : string)
  | TypeError (message : string).

Definition error_name (e : JsError) : string :=
  match e with
  | InvalidRequestError _ _ n => n
  | Error _ => "Error"
  | TypeError _ => "TypeError"
  end.


Definition error_httpStatusCode (e : JsError) : option Z :=
  match e with
  | InvalidRequestError c _ _ => c
  | _ => None
  end.

(** ** The world the service runs in *)

Inductive LogLevel : Type := Debug | Info | Warning | Error_.

(** One call on the [Users] model, in the order the service issues them. *)
Inductive StoreCall : Type :=
  | FindOne (field : string) (value : Val)
  | Update (values : Obj) (whereId : Val)
  | Create (values : Obj).

Definition is_write (c : StoreCall) : bool :=
  match c with FindOne _ _ => false | _ => true end.

Record ActivateAccountParameters := {
  name : Val;
  activationLink : string;
}.

Record Email := {
  toAddress : Val;
  fromAddress : string;
  templateParameters : ActivateAccountParameters;
}.

(** [rows]: the Users table.  [heap]: the objects the caller holds and passes
    by reference.  [clock]: the time [new Date()] reads.  [calls]: the calls
    made on the Users model.  [console]: the lines the logger wrote.
    [outbox]: the activation emails handed to the email service. *)
Record World := {
  rows : list Obj;
  heap : gmap nat Obj;
  clock : Z;
  calls : list StoreCall;
  console : list (LogLevel * string);
  outbox : list Email;
}.

Definition with_rows (r : list Obj) (w : World) : World :=
  {| rows := r; heap := heap w; clock := clock w; calls := calls w;
     console := console w; outbox := outbox w |}.
Definition with_heap (h : gmap nat Obj) (w : World) : World :=
  {| rows := rows w; heap := h; clock := clock w; calls := calls w;
     console := console w; outbox := outbox w |}.
Definition with_calls (c : list StoreCall) (w : World) : World :=
  {| rows := rows w; heap := heap w; clock := clock w; calls := c;
     console := console w; outbox := outbox w |}.
Definition with_console (c : list (LogLevel * string)) (w : World) : World :=
  {| rows := rows w; heap := heap w; clock := clock w; calls := calls w;
     console := c; outbox := outbox w |}.
Definition with_outbox (o : list Email) (w : World) : World :=
  {| rows := rows w; heap := heap w; clock := clock w; calls := calls w;
     console := console w; outbox := o |}.

(** ** Computations: state passing with exceptions

    A thrown error ends the computation; the effects made before it stay. *)
Inductive Outcome (A : Type) : Type :=
  | Ok (a : A)
  | Throw (e : JsError).
Arguments Ok {A} a.
Arguments Throw {A} e.

Definition M (A : Type) : Type := World -> Outcome A * World.

Definition ret {A} (a : A) : M A := fun w => (Ok a, w).
Definition throw {A} (e : JsError) : M A := fun w => (Throw e, w).
Definition bind {A B} (m : M A) (k : A -> M B) : M B :=
  fun w => match m w with
           | (Ok a, w') => k a w'
           | (Throw e, w') => (Throw e, w')
           end.
Definition lift {A} (o : Outcome A) : M A := fun w => (o, w).

Declare Scope js_scope.
Delimit Scope js_scope with js.
Notation "x <- m ;; k" := (bind m (fun x => k))
  (at level 100, m at next level, right associativity) : js_scope.
Notation "m ;; k" := (bind m (fun _ => k))
  (at level 100, right associativity) : js_scope.
Local Open Scope js_scope.

(** The object a reference denotes, and the world after the object is
    replaced. *)
Definition obj (l : nat) (w : World) : Obj := default ∅ (heap w !! l).
Definition assign (l : nat) (o : Obj) (w : World) : World :=
  with_heap (<[l := o]> (heap w)) w.

(** Reading and assigning a property of a caller-held object. *)
Definition deref (l : nat) : M Obj := fun w => (Ok (obj l w), w).
Definition get_prop (l : nat) (k : string) : M Val := fun w => (Ok (get k (obj l w)), w).
Definition set_prop (l : nat) (k : string) (v : Val) : M unit :=
  fun w => (Ok tt, assign l (<[k := v]> (obj l w)) w).

(** [new Date()]. *)
Definition new_Date : M Val := fun w => (Ok (VDate (clock w)), w).

(** [Logger.getInstance().log(level, message)]: one console line. *)
Definition Logger_log (level : LogLevel) (message : string) : M unit :=
  fun w => (Ok tt, with_console (console w ++ [(level, message)]) w).

(** ** The account store

    [dbContext.getModel(DatabaseModel.Users)] is not among the visible
    sources; the three operations the service calls on it follow the Account
    Store contract of the specification, section 6.  Every call is recorded
    in [calls]. *)

(** A row holds a value in a column. *)
Definition has (field : string) (value : Val) (row : Obj) : Prop :=
  row !! field = Some value.

#[global] Instance has_dec field value row : Decision (has field value row).
Proof. unfold has. apply _. Defined.

Definition first_with (field : string) (value : Val) (rs : list Obj) : option Obj :=
  head (filter (has field value) rs).

(** Modelled from the spec: [findOne(predicate) -> record|null] of the Account
    Store (the Users model is missing from the sources).  The predicate is the
    service's [where: {field: value}]; the record is the first row that holds
    the value in the field. *)
Definition Users_findOne (field : string) (value : Val) : M (option Obj) :=
  fun w =>
    (Ok (first_with field value (rows w)),
     with_calls (calls w ++ [FindOne field value]) w).

Definition apply_update (values : Obj) (whereId : Val) (row : Obj) : Obj :=
  if decide (has "id" whereId row) then values ∪ row else row.

(** Modelled from the spec: [update(partial, predicate) -> [affectedCount,
    rows]] of the Account Store (the Users model is missing from the sources).
    The predicate is the service's [where: {id: whereId}]; every row with that
    id takes the columns the partial carries; the result is the number of such
    rows and, as the service asks with [returning: true], the rows as
    updated: an array, empty when no row has the id. *)
Definition Users_update (values : Obj) (whereId : Val) : M (nat * list Obj) :=
  fun w =>
    let affected := filter (has "id" whereId) (rows w) in
    (Ok (length affected, (values ∪.) <$> affected),
     with_calls (calls w ++ [Update values whereId])
       (with_rows (apply_update values whereId <$> rows w) w)).

Definition next_id (rs : list Obj) : Z :=
  1 + foldr (λ (row : Obj) acc,
               match row !! "id" with Some (VNum n) => Z.max n acc | _ => acc end)
            0 rs.

(** Modelled from the spec: [create(record) -> record|null] of the Account
    Store (the Users model is missing from the sources).  The record is
    appended, numbered with the next serial id when it carries none, and
    returned. *)
Definition Users_create (values : Obj) : M (option Obj) :=
  fun w =>
    let row := match values !! "id" with
               | Some _ => values
               | None => <["id" := VNum (next_id (rows w))]> values
               end in
    (Ok (Some row),
     with_calls (calls w ++ [Create values]) (with_rows (rows w ++ [row]) w)).

(** ** Injected collaborators and imports

    Their implementations are outside the visible sources; the service is
    stated over any of them. *)

(** [IJsonConverterService]: [deserialize(userObject, User)]. *)
Record IJsonConverterService := {
  deserialize : Obj -> Obj;
}.

Record OAuthClient := {
  client_id : Val;
  client_grants : list string;
  client_accessTokenExpirySeconds : Val;
}.

Record OAuthConfiguration := {
  accessTokenSecret : string;
  clients : list OAuthClient;
}.

Record EmailConfiguration := {
  from : string;
}.

(** [IConfigurationService]. *)
Record IConfigurationService := {
  getOAuthConfig : OAuthConfiguration;
  getEmailConfig : EmailConfiguration;
  getClientBaseUrl : string;
}.

Record GenerateParameters := {
  userId : Val;
  clientId : Val;
  clientSecret : string;
  expirySeconds : Val;
  grants : list string;
}.

(** [IJwtTokenService]: both operations depend on the time of the call and may
    reject. *)
Record IJwtTokenService := {
  jwt_verify : string -> string -> Z -> Outcome Obj;
  jwt_generate : GenerateParameters -> Z -> Outcome string;
}.

(** [IEmailService]: whether the sender accepts the message. *)
Record IEmailService := {
  email_accepts : Email -> Outcome unit;
}.

(** The constructor's parameters ([dbContext] is the store of the world). *)
Record AccountService := {
  jsonConverter : IJsonConverterService;
  configuration : IConfigurationService;
  emailService : IEmailService;
  tokenService : IJwtTokenService;
}.

(** [encrypt] and [verify] of common/crypto, and the two built-ins the service
    uses: [encodeURIComponent] and the conversion of a value inside a template
    literal. *)
Record Imports := {
  encrypt : Val -> Val;
  verify_ : Val -> Val -> bool;
  encodeURIComponent : string -> string;
  template : Val -> string;
}.

Record Credentials := {
  username : string;
  password : string;
}.

(** ** The service *)

Section Service.

Variable this : AccountService.
Variable lib : Imports.

Definition oauthConfig : OAuthConfiguration := getOAuthConfig (configuration this).

Definition verify (credentials : Credentials) : M Obj :=
  userObject <- Users_findOne "username" (VStr (username credentials)) ;;
  match userObject with
  | None =>
      throw (InvalidRequestError None "Invalid credentials." "INVALID_CREDENTIALS")
  | Some userObject =>
      let user := deserialize (jsonConverter this) userObject in
      let valid := verify_ lib (VStr (password credentials)) (get "password" user) in
      if negb valid then
        throw (InvalidRequestError None "Invalid credentials." "INVALID_CREDENTIALS")
      else ret user
  end.

Definition find (userId : Z) : M Obj :=
  userObject <- Users_findOne "id" (VNum userId) ;;
  match userObject with
  | None => throw (InvalidRequestError (Some 404) "Account not found." "NOT_FOUND")
  | Some userObject => ret (deserialize (jsonConverter this) userObject)
  end.

Definition findByField (field : string) (value : Val) : M (option Obj) :=
  userObject <- Users_findOne field value ;;
  match userObject with
  | None => ret None
  | Some userObject => ret (Some (deserialize (jsonConverter this) userObject))
  end.

Definition tokenService_verify (token secret : string) : M Obj :=
  fun w => (jwt_verify (tokenService this) token secret (clock w), w).

Definition tokenService_generate (p : GenerateParameters) : M string :=
  fun w => (jwt_generate (tokenService this) p (clock w), w).

Definition activate (token : string) : M unit :=
  jwtToken <- tokenService_verify token (accessTokenSecret oauthConfig) ;;
  if isNil (get "userId" jwtToken) then
    throw (Error "Token doesn't have the user ID set")
  else
    Logger_log Debug ("Decoded token " +:+ template lib (get "userId" jwtToken)) ;;
    let userPartial : Obj := {[ "active" := VBool true ]} in
    result <- Users_update userPartial (get "userId" jwtToken) ;;
    let affectedRows : list Obj := result.2 in
    if isNil affectedRows then
      throw (Error ("User not found (ID = " +:+ template lib (get "userId" jwtToken) +:+ ")"))
    else ret tt.

(** [this.oauthConfig.clients[clientIndex].id] on an empty client list reads
    a property of [undefined], a [TypeError]. *)
Definition generateActivationToken (user : Obj) : M string :=
  let clientIndex := 0%nat in
  match clients oauthConfig !! clientIndex with
  | None => throw (TypeError "Cannot read property 'id' of undefined")
  | Some client =>
      tokenService_generate
        {| userId := get "id" user;
           clientId := client_id client;
           clientSecret := accessTokenSecret oauthConfig;
           expirySeconds := client_accessTokenExpirySeconds client;
           grants := client_grants client |}
  end.

Definition emailService_sendAccountActivationEmail
    (to : Val) (from_ : string) (params : ActivateAccountParameters) : M unit :=
  fun w =>
    let mail := {| toAddress := to; fromAddress := from_; templateParameters := params |} in
    match email_accepts (emailService this) mail with
    | Ok _ => (Ok tt, with_outbox (outbox w ++ [mail]) w)
    | Throw e => (Throw e, w)
    end.

Definition sendAccountActivationEmail (user : Obj) : M unit :=
  let toAddress := get "email" user in
  let fromAddress := from (getEmailConfig (configuration this)) in
  accessToken <- generateActivationToken user ;;
  let encodedAccessToken := encodeURIComponent lib accessToken in
  let activationLink :=
    getClientBaseUrl (configuration this) +:+ "/account/activate?token=" +:+ encodedAccessToken in
  let templateParameters :=
    {| name := get "firstName" user; activationLink := activationLink |} in
  emailService_sendAccountActivationEmail toAddress fromAddress templateParameters.

Definition prepareUserPartialForCreate (newUserPartial : nat) (createdBy : Z) : M unit :=
  currentDate <- new_Date ;;
  set_prop newUserPartial "createdAt" currentDate ;;
  set_prop newUserPartial "updatedAt" currentDate ;;
  set_prop newUserPartial "createdBy" (VNum createdBy) ;;
  set_prop newUserPartial "updatedBy" (VNum createdBy) ;;
  set_prop newUserPartial "active" (VBool false) ;;
  password <- get_prop newUserPartial "password" ;;
  set_prop newUserPartial "password" (encrypt lib password).

Definition prepareUserPartialForUpdate (userPartial : nat) (updatedBy : Z) : M unit :=
  now <- new_Date ;;
  set_prop userPartial "updatedAt" now ;;
  set_prop userPartial "updatedBy" (VNum updatedBy) ;;
  password <- get_prop userPartial "password" ;;
  if truthy password then
    set_prop userPartial "password" (encrypt lib password)
  else ret tt.

Definition userExists (user : nat) : M bool :=
  username <- get_prop user "username" ;;
  userWithSameUsername <- findByField "username" username ;;
  if negb (isNil userWithSameUsername) then ret true
  else
    email <- get_prop user "email" ;;
    userWithSameEmail <- findByField "email" email ;;
    if negb (isNil userWithSameEmail) then ret true
    else ret false.

Definition create (newUserPartial : nat) (createdBy : Z) : M unit :=
  userExists_ <- userExists newUserPartial ;;
  if (userExists_ : bool) then
    let alreadyExistsMessage :=
      "An user account with the same username or email already exists" in
    Logger_log Error_ alreadyExistsMessage ;;
    throw (Error alreadyExistsMessage)
  else
    prepareUserPartialForCreate newUserPartial createdBy ;;
    values <- deref newUserPartial ;;
    createdUser <- Users_create values ;;
    match createdUser with
    | None =>
        let accountNotCreatedMessage := "Account not created" in
        Logger_log Error_ accountNotCreatedMessage ;;
        throw (Error accountNotCreatedMessage)
    | Some createdUser => sendAccountActivationEmail createdUser
    end.

Definition update (userPartial : nat) (updatedBy : Z) : M unit :=
  prepareUserPartialForUpdate userPartial updatedBy ;;
  whereId <- get_prop userPartial "id" ;;
  values <- deref userPartial ;;
  updatedUser <- Users_update values whereId ;;
  if isNil updatedUser then throw (Error "Failed to updated user")
  else ret tt.

End Service.

(** ** A concrete instance

    A toy digest, a token service that knows three tokens, one registered
    client, and a world with one account and six caller-held partials. *)

Definition demo_encrypt (v : Val) : Val :=
  match v with
  | VStr s => VStr ("sha:" +:+ s)
  | _ => VStr "sha:"
  end.

Definition demo_lib : Imports := {|
  encrypt := demo_encrypt;
  verify_ := fun secret digest => bool_decide (demo_encrypt secret = digest);
  encodeURIComponent := fun s => s;
  template := fun v => match v with VNum n => pretty n | VStr s => s | _ => "?" end;
|}.

Definition demo_tokens : IJwtTokenService := {|
  jwt_verify := fun token secret now =>
    if String.eqb token "subject-7" then Ok ({[ "userId" := VNum 7 ]} : Obj)
    else if String.eqb token "subject-1" then Ok ({[ "userId" := VNum 1 ]} : Obj)
    else if String.eqb token "no-subject" then Ok (∅ : Obj)
    else Throw (InvalidRequestError None "Invalid token." "INVALID_TOKEN");
  jwt_generate := fun p now =>
    Ok ("token-for-" +:+ match userId p with VNum n => pretty n | _ => "?" end);
|}.

Definition demo_service : AccountService := {|
  jsonConverter := {| deserialize := fun o => o |};
  configuration := {|
    getOAuthConfig :=
      {| accessTokenSecret := "s3cret";
         clients := [ {| client_id := VStr "web"; client_grants := ["password"];
                         client_accessTokenExpirySeconds := VNum 3600 |} ] |};
    getEmailConfig := {| from := "noreply@x.com" |};
    getClientBaseUrl := "https://x.com" |};
  emailService := {| email_accepts := fun _ => Ok tt |};
  tokenService := demo_tokens;
|}.

Definition alice : Obj :=
  {[ "id" := VNum 1; "username" := VStr "alice"; "email" := VStr "a@x.com";
     "password" := VStr "sha:p"; "active" := VBool false ]}.

Definition bob_partial : Obj :=
  {[ "username" := VStr "bob"; "email" := VStr "b@x.com";
     "password" := VStr "q"; "active" := VBool true ]}.

Definition alice_again : Obj :=
  {[ "username" := VStr "alice"; "email" := VStr "other@x.com";
     "password" := VStr "q" ]}.

Definition blank_password : Obj :=
  {[ "id" := VNum 1; "password" := VStr "" ]}.

Definition new_password : Obj :=
  {[ "id" := VNum 1; "password" := VStr "n" ]}.

Definition ghost_profile : Obj :=
  {[ "id" := VNum 99; "firstName" := VStr "Zed" ]}.

Definition carol_partial : Obj :=
  {[ "username" := VStr "carol"; "email" := VStr "a@x.com"; "password" := VStr "r" ]}.

Definition demo_world : World := {|
  rows := [alice];
  heap := {[ 0%nat := bob_partial; 1%nat := alice_again;
             2%nat := blank_password; 3%nat := new_password;
             4%nat := ghost_profile; 5%nat := carol_partial ]};
  clock := 1000;
  calls := [];
  console := [];
  outbox := [];
|}.

(** An empty table, for the scenario of the specification. *)
Definition alice_partial : Obj :=
  {[ "username" := VStr "alice"; "email" := VStr "a@x.com"; "password" := VStr "p" ]}.

Definition empty_world : World := {|
  rows := [];
  heap := {[ 0%nat := alice_partial; 1%nat := alice_again ]};
  clock := 1000;
  calls := [];
  console := [];
  outbox := [];
|}.

(** ** Worlds and objects the statements speak of *)

(** The world after one lookup on the Users model. *)
Definition looked_up (field : string) (value : Val) (w : World) : World :=
  with_calls (calls w ++ [FindOne field value]) w.

(** The errors the statements name. *)
Definition invalid_credentials : JsError :=
  InvalidRequestError None "Invalid credentials." "INVALID_CREDENTIALS".

Definition not_found : JsError :=
  InvalidRequestError (Some 404) "Account not found." "NOT_FOUND".

Definition no_subject : JsError := Error "Token doesn't have the user ID set".

Definition already_exists : JsError :=
  Error "An user account with the same username or email already exists".

(** The partial after the assignments of [prepareUserPartialForCreate]. *)
Definition stamped_for_create (lib : Imports) (createdBy now : Z) (o : Obj) : Obj :=
  <["password" := encrypt lib (get "password" o)]>
    (<["active" := VBool false]>
       (<["updatedBy" := VNum createdBy]>
          (<["createdBy" := VNum createdBy]>
             (<["updatedAt" := VDate now]>
                (<["createdAt" := VDate now]> o))))).

(** The partial after the assignments of [prepareUserPartialForUpdate]. *)
Definition stamped_for_update (lib : Imports) (updatedBy now : Z) (o : Obj) : Obj :=
  let stamped := <["updatedBy" := VNum updatedBy]> (<["updatedAt" := VDate now]> o) in
  if truthy (get "password" o)
  then <["password" := encrypt lib (get "password" o)]> stamped
  else stamped.

(** A service whose email sender rejects every message. *)
Definition demo_service_no_mail : AccountService := {|
  jsonConverter := jsonConverter demo_service;
  configuration := configuration demo_service;
  emailService := {| email_accepts := fun _ => Throw (Error "SMTP down") |};
  tokenService := tokenService demo_service;
|}.

(** ** Further objects the statements speak of *)

(** The row the store appends for the caller's partial: the stamped record,
    numbered by the store when it carries no id. *)
Definition created_row (lib : Imports) (l : nat) (createdBy : Z) (w : World) : Obj :=
  let record := stamped_for_create lib createdBy (clock w) (obj l w) in
  match record !! "id" with
  | Some _ => record
  | None => <["id" := VNum (next_id (rows w))]> record
  end.



(** A row after activation by a token for [subject]. *)
Definition activated (subject : Val) (row : Obj) : Obj :=
  if decide (has "id" subject row) then <["active" := VBool true]> row else row.

(** No two rows hold the same value in the column. *)
Definition unique_on (field : string) (rs : list Obj) : Prop :=
  ∀ (i j : nat) (r1 r2 : Obj) (v : Val),
    rs !! i = Some r1 → rs !! j = Some r2 →
    has field v r1 → has field v r2 → i = j.

(** The ids of the rows, in table order. *)
Definition ids (rs : list Obj) : list (option Val) := (λ row : Obj, row !! "id") <$> rs.

(** One call on the service, and the world it leaves. *)
Inductive Request : Type :=
  | Verify (credentials : Credentials)
  | Find (userId : Z)
  | FindByField (field : string) (value : Val)
  | Activate (token : string)
  | CreateAccount (newUserPartial : nat) (createdBy : Z)
  | UpdateAccount (userPartial : nat) (updatedBy : Z).

Definition serve (this : AccountService) (lib : Imports) (r : Request) (w : World) : World :=
  match r with
  | Verify credentials => (verify this lib credentials w).2
  | Find userId => (find this userId w).2
  | FindByField field value => (findByField this field value w).2
  | Activate token => (activate this lib token w).2
  | CreateAccount l createdBy => (create this lib l createdBy w).2
  | UpdateAccount l updatedBy => (update lib l updatedBy w).2
  end.

Definition serve_all (this : AccountService) (lib : Imports) (rs : list Request) (w : World)
    : World :=
  foldl (λ w r, serve this lib r w) w rs.


(** ** The logger (common/logger/logger.ts) *)

Module Logger.

(** The console method a line goes to. *)
Inductive Method : Type := console_debug | console_warn | console_error | console_log.

(** [instance]: the static field, a reference to the one [Logger] object or
    nothing yet.  [constructed]: how many times [new Logger()] ran; the
    n-th object is reference n.  [lines]: the console calls, each with the
    message and the array of optional parameters. *)
Record State := {
  instance : option nat;
  constructed : nat;
  lines : list (Method * string * list Val);
}.

Definition getInstance (s : State) : nat * State :=
  if isNil (instance s) then
    let s' := {| instance := Some (constructed s);
                 constructed := S (constructed s);
                 lines := lines s |} in
    (constructed s, s')
  else (default 0%nat (instance s), s).

Definition log (level : LogLevel) (message : string) (optionalParams : list Val)
    (s : State) : State :=
  let write m := {| instance := instance s; constructed := constructed s;
                    lines := lines s ++ [(m, message, optionalParams)] |} in
  match level with
  | Debug => write console_debug
  | Warning => write console_warn
  | Error_ => write console_error
  | _ => write console_log
  end.

(** What a program does with the logger: ask for the instance, or ask for
    it and log a line, as every call site does. *)
Inductive Action : Type :=
  | GetInstance
  | Log (level : LogLevel) (message : string) (optionalParams : list Val).

(** Runs the actions in order; gives the instance each one obtained. *)
Fixpoint run (actions : list Action) (s : State) : list nat * State :=
  match actions with
  | [] => ([], s)
  | GetInstance :: rest =>
      let '(i, s1) := getInstance s in
      let '(is_, s2) := run rest s1 in
      (i :: is_, s2)
  | Log level message optionalParams :: rest =>
      let '(i, s1) := getInstance s in
      let '(is_, s2) := run rest (log level message optionalParams s1) in
      (i :: is_, s2)
  end.

End Logger.


Definition bob : Obj :=
  {[ "id" := VNum 2; "username" := VStr "bob"; "email" := VStr "b@x.com";
     "password" := VStr "sha:q"; "active" := VBool true ]}.

Definition rename_to_alice : Obj :=
  {[ "id" := VNum 2; "username" := VStr "alice" ]}.

(** Two accounts, and a partial that renames the second to the first's
    username. *)
Definition two_accounts : World := {|
  rows := [alice; bob];
  heap := {[ 0%nat := rename_to_alice ]};
  clock := 2000;
  calls := [];
  console := [];
  outbox := [];
|}.



(** * Properties *)

(** ** The store *)

Lemma first_with_None field value (rs : list Obj) :
  first_with field value rs = None ↔ ∀ row, row ∈ rs → ¬ has field value row.
Proof.
  unfold first_with. rewrite head_None. split.
  - intros Hnil row Hin Hhas.
    assert (row ∈ filter (has field value) rs) as Hf by (apply list_elem_of_filter; done).
    rewrite Hnil in Hf. by apply not_elem_of_nil in Hf.
  - intros Hno. induction rs as [|r rs IH]; [done|].
    rewrite filter_cons. destruct (decide (has field value r)) as [Hr|Hr].
    + exfalso. apply (Hno r); [left | done].
    + apply IH. intros row Hin. apply Hno. by right.
Qed.

Lemma first_with_Some field value (rs : list Obj) (account : Obj) :
  first_with field value rs = Some account →
  account ∈ rs ∧ has field value account.
Proof.
  unfold first_with. intros Hhd.
  assert (account ∈ filter (has field value) rs) as Hf.
  { destruct (filter (has field value) rs) as [|x xs]; simplify_eq/=. left. }
  apply list_elem_of_filter in Hf. tauto.
Qed.

Lemma first_with_exists field value (rs : list Obj) :
  (∃ row, row ∈ rs ∧ has field value row) →
  ∃ account, first_with field value rs = Some account.
Proof.
  intros (row & Hin & Hhas).
  destruct (first_with field value rs) as [account|] eqn:Hfw; [by eexists|].
  exfalso. by eapply first_with_None.
Qed.

(** With a unique column (the data model's invariant for username and email)
    the row found is the one row that holds the value. *)
Lemma first_with_unique field value (rs : list Obj) (account : Obj) :
  account ∈ rs → has field value account →
  (∀ other, other ∈ rs → has field value other → other = account) →
  first_with field value rs = Some account.
Proof.
  intros Hin Hhas Huniq.
  destruct (first_with_exists field value rs) as [found Hfound]; [by exists account|].
  destruct (first_with_Some _ _ _ _ Hfound) as [Hin' Hhas'].
  by rewrite Hfound, (Huniq found Hin' Hhas').
Qed.

Lemma filter_has_none field value (rs : list Obj) :
  (∀ row, row ∈ rs → ¬ has field value row) →
  filter (has field value) rs = [].
Proof.
  intros Hno. apply first_with_None in Hno. unfold first_with in Hno.
  by apply head_None in Hno.
Qed.

Lemma apply_update_none values whereId (rs : list Obj) :
  (∀ row, row ∈ rs → ¬ has "id" whereId row) →
  apply_update values whereId <$> rs = rs.
Proof.
  induction rs as [|r rs IH]; intros Hno; [done|].
  rewrite fmap_cons, IH by (intros row Hin; apply Hno; by right).
  unfold apply_update. destruct (decide (has "id" whereId r)) as [Hr|Hr]; [|done].
  exfalso. apply (Hno r); [left | done].
Qed.

(** ** Lookups: verify, find, findByField *)

Lemma findByField_run this field value w :
  findByField this field value w =
  (Ok (deserialize (jsonConverter this) <$> first_with field value (rows w)),
   looked_up field value w).
Proof.
  unfold findByField, bind, Users_findOne, looked_up.
  by destruct (first_with field value (rows w)).
Qed.





(** C8. [find] throws NOT_FOUND with the HTTP status hint 404 when no row has
    the id; when an account has it, [find] returns the deserialised form of a
    stored row with that id, and its id is the requested one as soon as the
    converter carries the id over. *)
Theorem find_by_id this (userId : Z) (w : World) :
  let user_of account := deserialize (jsonConverter this) account in
  ((∀ row, row ∈ rows w → ¬ has "id" (VNum userId) row) →
     find this userId w = (Throw not_found, looked_up "id" (VNum userId) w))
  ∧ error_name not_found = "NOT_FOUND"
  ∧ error_httpStatusCode not_found = Some 404
  ∧ ((∃ row, row ∈ rows w ∧ has "id" (VNum userId) row) →
     ∃ account,
       account ∈ rows w ∧ has "id" (VNum userId) account
       ∧ find this userId w = (Ok (user_of account), looked_up "id" (VNum userId) w)
       ∧ (get "id" (user_of account) = get "id" account →
          get "id" (user_of account) = VNum userId)).
Proof.
  intros user_of. repeat split.
  - intros Habsent. apply first_with_None in Habsent.
    unfold find, bind, Users_findOne. by rewrite Habsent.
  - intros Hexists. destruct (first_with_exists _ _ _ Hexists) as [account Hfound].
    destruct (first_with_Some _ _ _ _ Hfound) as [Hin Hhas].
    exists account. repeat split; try done.
    + unfold find, bind, Users_findOne. by rewrite Hfound.
    + intros ->. unfold get. by rewrite Hhas.
Qed.

Lemma find_by_id_witness :
  find demo_service 5 demo_world = (Throw not_found, looked_up "id" (VNum 5) demo_world)
  ∧ ∃ account,
      find demo_service 1 demo_world = (Ok account, looked_up "id" (VNum 1) demo_world)
      ∧ get "id" account = VNum 1.
Proof.
  split.
  - destruct (find_by_id demo_service 5 demo_world) as (Habsent & _).
    apply Habsent. intros row Hin. apply list_elem_of_singleton in Hin. subst row.
    vm_compute. discriminate.
  - destruct (find_by_id demo_service 1 demo_world) as (_ & _ & _ & Hpresent).
    destruct Hpresent as (account & _ & _ & Hrun & Hid).
    + exists alice. split; [left | reflexivity].
    + eexists. split; [exact Hrun | by apply Hid].
Defined.

(** C9. [findByField] returns null, without an error, when no row holds the
    value in the field; when one does, it returns the deserialised form of the
    first such row.  For the same absent id [find] throws where
    [findByField] returns null. *)
Theorem findByField_null_when_absent this (field : string) (value : Val) (w : World) :
  let user_of account := deserialize (jsonConverter this) account in
  ((∀ row, row ∈ rows w → ¬ has field value row) →
     findByField this field value w = (Ok None, looked_up field value w))
  ∧ ((∃ row, row ∈ rows w ∧ has field value row) →
     ∃ account,
       account ∈ rows w ∧ has field value account
       ∧ first_with field value (rows w) = Some account
       ∧ findByField this field value w = (Ok (Some (user_of account)), looked_up field value w))
  ∧ (∀ userId : Z,
       (∀ row, row ∈ rows w → ¬ has "id" (VNum userId) row) →
       findByField this "id" (VNum userId) w = (Ok None, looked_up "id" (VNum userId) w)
       ∧ find this userId w = (Throw not_found, looked_up "id" (VNum userId) w)).
Proof.
  intros user_of. split; [|split].
  - intros Habsent. apply first_with_None in Habsent.
    by rewrite findByField_run, Habsent.
  - intros Hexists. destruct (first_with_exists _ _ _ Hexists) as [account Hfound].
    destruct (first_with_Some _ _ _ _ Hfound) as [Hin Hhas].
    exists account. repeat split; try done.
    by rewrite findByField_run, Hfound.
  - intros userId Habsent. apply first_with_None in Habsent. split.
    + by rewrite findByField_run, Habsent.
    + unfold find, bind, Users_findOne. by rewrite Habsent.
Qed.

Lemma findByField_null_when_absent_witness :
  findByField demo_service "email" (VStr "nobody@x.com") demo_world
    = (Ok None, looked_up "email" (VStr "nobody@x.com") demo_world)
  ∧ findByField demo_service "email" (VStr "a@x.com") demo_world
    = (Ok (Some alice), looked_up "email" (VStr "a@x.com") demo_world).
Proof.
  split.
  - destruct (findByField_null_when_absent demo_service "email" (VStr "nobody@x.com")
                demo_world) as (Habsent & _).
    apply Habsent. intros row Hin. apply list_elem_of_singleton in Hin. subst row.
    vm_compute. discriminate.
  - destruct (findByField_null_when_absent demo_service "email" (VStr "a@x.com")
                demo_world) as (_ & Hpresent & _).
    destruct Hpresent as (account & _ & _ & Hfirst & Hrun).
    + exists alice. split; [left | reflexivity].
    + vm_compute in Hfirst. injection Hfirst as <-. exact Hrun.
Defined.

(** ** Activation *)

(** C6. When the verified token carries no user id, [activate] throws and the
    world is as it was: no call reached the Users model, no row changed. *)
Theorem activate_without_subject this lib (token : string) (jwtToken : Obj) (w : World) :
  jwt_verify (tokenService this) token (accessTokenSecret (oauthConfig this)) (clock w)
    = Ok jwtToken →
  isNil (get "userId" jwtToken) = true →
  activate this lib token w = (Throw no_subject, w).
Proof.
  intros Hverified Hnil.
  unfold activate, bind, tokenService_verify. by rewrite Hverified, Hnil.
Qed.

Lemma activate_without_subject_witness :
  activate demo_service demo_lib "no-subject" demo_world = (Throw no_subject, demo_world).
Proof.
  apply (activate_without_subject demo_service demo_lib "no-subject" ∅ demo_world);
    reflexivity.
Defined.

Lemma Users_update_none values whereId w :
  (∀ row, row ∈ rows w → ¬ has "id" whereId row) →
  Users_update values whereId w =
  (Ok (0%nat, []), with_calls (calls w ++ [Update values whereId]) w).
Proof.
  intros Hno. unfold Users_update.
  rewrite (filter_has_none _ _ _ Hno), (apply_update_none _ _ _ Hno).
  by destruct w.
Qed.

(** Once the token is verified and carries a user id, [activate] logs, issues
    the update and returns: the affected rows are an array, which [isNil]
    never rejects. *)
Lemma activate_run this lib (token : string) (jwtToken : Obj) (w : World) :
  let subject := get "userId" jwtToken in
  let values : Obj := {[ "active" := VBool true ]} in
  jwt_verify (tokenService this) token (accessTokenSecret (oauthConfig this)) (clock w)
    = Ok jwtToken →
  isNil subject = false →
  activate this lib token w =
  (Ok tt,
   with_calls (calls w ++ [Update values subject])
     (with_rows (apply_update values subject <$> rows w)
        (with_console (console w ++ [(Debug, "Decoded token " +:+ template lib subject)]) w))).
Proof.
  intros subject values Hverified Hsubject.
  unfold activate, bind, tokenService_verify. rewrite Hverified.
  fold subject. by rewrite Hsubject.
Qed.

(** C4 (what the code does). With a verified token whose user id matches no
    row, the store's update reports zero affected rows and an empty array of
    rows; the array is not nil, so [activate] returns normally instead of
    throwing 'User not found'. *)
Theorem activate_unknown_id_returns this lib (token : string) (jwtToken : Obj) (w : World) :
  let subject := get "userId" jwtToken in
  let values : Obj := {[ "active" := VBool true ]} in
  jwt_verify (tokenService this) token (accessTokenSecret (oauthConfig this)) (clock w)
    = Ok jwtToken →
  isNil subject = false →
  (∀ row, row ∈ rows w → ¬ has "id" subject row) →
  ∃ w',
    activate this lib token w = (Ok tt, w')
    ∧ rows w' = rows w
    ∧ calls w' = calls w ++ [Update values subject]
    ∧ (Users_update values subject w).1 = Ok (0%nat, []).
Proof.
  intros subject values Hverified Hsubject Hno.
  rewrite (activate_run this lib token jwtToken w Hverified Hsubject).
  fold subject values. eexists. split; [reflexivity|].
  cbn [rows calls with_calls with_rows].
  split; [by apply apply_update_none|]. split; [done|].
  by rewrite Users_update_none.
Qed.

Lemma activate_unknown_id_returns_witness :
  (activate demo_service demo_lib "subject-7" demo_world).1 = Ok tt
  ∧ rows (activate demo_service demo_lib "subject-7" demo_world).2 = [alice].
Proof.
  destruct (activate_unknown_id_returns demo_service demo_lib "subject-7"
              {[ "userId" := VNum 7 ]} demo_world) as (w' & Hrun & Hrows & _).
  - reflexivity.
  - reflexivity.
  - intros row Hin. apply list_elem_of_singleton in Hin. subst row.
    vm_compute. discriminate.
  - rewrite Hrun. split; [reflexivity | exact Hrows].
Defined.

(** ** Caller-held objects *)

Lemma obj_assign l o w : obj l (assign l o w) = o.
Proof. unfold obj, assign. cbn [heap with_heap]. by rewrite lookup_insert_eq. Qed.

Lemma assign_assign l o1 o2 w : assign l o2 (assign l o1 w) = assign l o2 w.
Proof.
  unfold assign, with_heap. cbn [heap rows clock calls console outbox].
  by rewrite insert_insert_eq.
Qed.

Lemma heap_assign l o w : heap (assign l o w) !! l = Some o.
Proof. unfold assign. cbn [heap with_heap]. by rewrite lookup_insert_eq. Qed.

Lemma heap_assign_other l l' o w : l ≠ l' → heap (assign l o w) !! l' = heap w !! l'.
Proof. intros Hne. unfold assign. cbn [heap with_heap]. by rewrite lookup_insert_ne. Qed.

Lemma get_insert k v (o : Obj) : get k (<[k := v]> o) = v.
Proof. unfold get. by rewrite lookup_insert_eq. Qed.

Lemma get_insert_ne k k' v (o : Obj) : k ≠ k' → get k' (<[k := v]> o) = get k' o.
Proof. intros Hne. unfold get. by rewrite lookup_insert_ne. Qed.

Lemma prepareUserPartialForCreate_run lib l createdBy w :
  prepareUserPartialForCreate lib l createdBy w =
  (Ok tt, assign l (stamped_for_create lib createdBy (clock w) (obj l w)) w).
Proof.
  unfold prepareUserPartialForCreate, bind, new_Date, set_prop, get_prop.
  rewrite !obj_assign, !assign_assign.
  rewrite !get_insert_ne by done. reflexivity.
Qed.

Lemma prepareUserPartialForUpdate_run lib l updatedBy w :
  prepareUserPartialForUpdate lib l updatedBy w =
  (Ok tt, assign l (stamped_for_update lib updatedBy (clock w) (obj l w)) w).
Proof.
  unfold prepareUserPartialForUpdate, bind, new_Date, set_prop, get_prop, stamped_for_update.
  rewrite !obj_assign, !assign_assign.
  rewrite !get_insert_ne by done.
  destruct (truthy (get "password" (obj l w))); [|reflexivity].
  unfold set_prop. by rewrite !obj_assign, !assign_assign.
Qed.

(** The fields of the two stamped forms. *)
Lemma stamped_for_create_fields lib createdBy now (o : Obj) :
  let record := stamped_for_create lib createdBy now o in
  get "createdAt" record = VDate now
  ∧ get "updatedAt" record = VDate now
  ∧ get "createdBy" record = VNum createdBy
  ∧ get "updatedBy" record = VNum createdBy
  ∧ get "active" record = VBool false
  ∧ get "password" record = encrypt lib (get "password" o)
  ∧ (∀ k, k ∉ ["createdAt"; "updatedAt"; "createdBy"; "updatedBy"; "active"; "password"] →
       record !! k = o !! k).
Proof.
  unfold stamped_for_create. cbv zeta. repeat split.
  1-6: repeat first [ apply get_insert | rewrite get_insert_ne by done ].
  intros k Hk. rewrite !lookup_insert_ne; [done|..]; intros <-; apply Hk; set_solver.
Qed.

Lemma stamped_for_update_fields lib updatedBy now (o : Obj) :
  let record := stamped_for_update lib updatedBy now o in
  get "updatedAt" record = VDate now
  ∧ get "updatedBy" record = VNum updatedBy
  ∧ (truthy (get "password" o) = true →
       get "password" record = encrypt lib (get "password" o))
  ∧ (truthy (get "password" o) = false → record !! "password" = o !! "password")
  ∧ (∀ k, k ∉ ["updatedAt"; "updatedBy"; "password"] → record !! k = o !! k).
Proof.
  unfold stamped_for_update. cbv zeta.
  assert (∀ (k : string) (r : Obj),
            k ∉ ["updatedAt"; "updatedBy"; "password"] →
            <["password" := encrypt lib (get "password" o)]>
              (<["updatedBy" := VNum updatedBy]> (<["updatedAt" := VDate now]> r)) !! k
            = r !! k) as Hother.
  { intros k r Hk. rewrite !lookup_insert_ne; [done|..]; intros <-; apply Hk; set_solver. }
  destruct (truthy (get "password" o)); (split; [|split; [|split; [|split]]]);
    try discriminate.
  - rewrite !get_insert_ne by done. apply get_insert.
  - rewrite !get_insert_ne by done. apply get_insert.
  - intros _. apply get_insert.
  - intros k Hk. by apply Hother.
  - rewrite !get_insert_ne by done. apply get_insert.
  - apply get_insert.
  - intros _. by rewrite !lookup_insert_ne.
  - intros k Hk. rewrite !lookup_insert_ne; [done|..]; intros <-; apply Hk; set_solver.
Qed.

(** ** Update *)

Lemma update_run lib l updatedBy w :
  let record := stamped_for_update lib updatedBy (clock w) (obj l w) in
  let whereId := get "id" (obj l w) in
  update lib l updatedBy w =
  (Ok tt,
   with_calls (calls w ++ [Update record whereId])
     (with_rows (apply_update record whereId <$> rows w) (assign l record w))).
Proof.
  intros record whereId.
  unfold update, bind. rewrite prepareUserPartialForUpdate_run. fold record.
  unfold get_prop, deref. rewrite obj_assign.
  assert (get "id" record = whereId) as ->.
  { destruct (stamped_for_update_fields lib updatedBy (clock w) (obj l w))
      as (_ & _ & _ & _ & Hother).
    unfold whereId, get. fold record in Hother. rewrite Hother; [done|].
    rewrite !not_elem_of_cons. repeat split; try done. apply not_elem_of_nil. }
  reflexivity.
Qed.

(** Whatever the store reports, [update] returns normally: the value tested
    with [isNil] is the result tuple, which is never nil. *)
Lemma update_never_throws lib l updatedBy w :
  (update lib l updatedBy w).1 = Ok tt.
Proof. by rewrite update_run. Qed.

(** C5 (what the code does). When no row has the partial's id, the store's
    update reports zero affected rows, the table is as it was, and [update]
    returns normally instead of throwing 'Failed to updated user'. *)
Theorem update_without_effect_returns lib (l : nat) (updatedBy : Z) (w : World) :
  let whereId := get "id" (obj l w) in
  (∀ row, row ∈ rows w → ¬ has "id" whereId row) →
  (update lib l updatedBy w).1 = Ok tt
  ∧ rows (update lib l updatedBy w).2 = rows w
  ∧ ∀ values, (Users_update values whereId w).1 = Ok (0%nat, []).
Proof.
  intros whereId Hno. rewrite update_run. cbn [fst snd rows with_calls with_rows].
  fold whereId. rewrite apply_update_none by done.
  repeat split. intros values. by rewrite Users_update_none.
Qed.

Lemma update_without_effect_returns_witness :
  (update demo_lib 4 9 demo_world).1 = Ok tt
  ∧ rows (update demo_lib 4 9 demo_world).2 = [alice].
Proof.
  destruct (update_without_effect_returns demo_lib 4 9 demo_world) as (Hok & Hrows & _).
  - intros row Hin. apply list_elem_of_singleton in Hin. subst row.
    vm_compute. discriminate.
  - split; [exact Hok | exact Hrows].
Defined.

(** C7 as stated fails on an empty password.  The partial
    [{id: 1, password: ''}] carries a password, the empty string is falsy, and
    the record handed to the store and the row it leaves hold the plaintext
    [''] where the digest of [''] is ['sha:']. *)
Lemma update_blank_password_kept :
  obj 2 demo_world !! "password" = Some (VStr "")
  ∧ ∃ record row,
      calls (update demo_lib 2 9 demo_world).2 = [Update record (VNum 1)]
      ∧ rows (update demo_lib 2 9 demo_world).2 = [row]
      ∧ get "password" record = VStr ""
      ∧ get "password" row = VStr ""
      ∧ encrypt demo_lib (VStr "") = VStr "sha:"
      ∧ get "password" record ≠ encrypt demo_lib (VStr "").
Proof.
  split; [reflexivity|].
  eexists _, _. split; [|split]; [vm_compute; reflexivity ..|].
  repeat split; [vm_compute; reflexivity ..|]. vm_compute. discriminate.
Qed.

(** C7 (amended). The record [update] hands to the store, and merges into the
    rows with the partial's id, has updatedAt set to the current time and
    updatedBy to the caller's id; its password is the digest of the partial's
    password when that password is truthy (a non-empty string), and the
    partial's own password field otherwise; every other field is the
    partial's. *)
Theorem update_stamps_and_hashes lib (l : nat) (updatedBy : Z) (w : World) :
  let partial := obj l w in
  let w' := (update lib l updatedBy w).2 in
  ∃ record,
    calls w' = calls w ++ [Update record (get "id" partial)]
    ∧ rows w' = apply_update record (get "id" partial) <$> rows w
    ∧ get "updatedAt" record = VDate (clock w)
    ∧ get "updatedBy" record = VNum updatedBy
    ∧ (truthy (get "password" partial) = true →
         get "password" record = encrypt lib (get "password" partial))
    ∧ (truthy (get "password" partial) = false →
         record !! "password" = partial !! "password")
    ∧ (∀ k, k ∉ ["updatedAt"; "updatedBy"; "password"] → record !! k = partial !! k).
Proof.
  intros partial w'. subst w'. rewrite update_run.
  exists (stamped_for_update lib updatedBy (clock w) partial).
  split; [done|]. split; [done|].
  apply stamped_for_update_fields.
Qed.

Lemma update_stamps_and_hashes_witness :
  ∃ record,
    calls (update demo_lib 3 9 demo_world).2 = [Update record (VNum 1)]
    ∧ get "updatedAt" record = VDate 1000
    ∧ get "updatedBy" record = VNum 9
    ∧ get "password" record = VStr "sha:n".
Proof.
  destruct (update_stamps_and_hashes demo_lib 3 9 demo_world)
    as (record & Hcalls & _ & Hat & Hby & Hhashed & _).
  exists record. repeat split; [exact Hcalls | exact Hat | exact Hby |].
  rewrite Hhashed; reflexivity.
Defined.

(** ** Creation *)

Lemma userExists_username_taken this l w :
  (∃ row, row ∈ rows w ∧ has "username" (get "username" (obj l w)) row) →
  userExists this l w = (Ok true, looked_up "username" (get "username" (obj l w)) w).
Proof.
  intros Htaken. destruct (first_with_exists _ _ _ Htaken) as [account Hfound].
  unfold userExists, bind, get_prop. rewrite findByField_run, Hfound. reflexivity.
Qed.

Lemma userExists_email_taken this l w :
  (∀ row, row ∈ rows w → ¬ has "username" (get "username" (obj l w)) row) →
  (∃ row, row ∈ rows w ∧ has "email" (get "email" (obj l w)) row) →
  userExists this l w =
  (Ok true,
   looked_up "email" (get "email" (obj l w))
     (looked_up "username" (get "username" (obj l w)) w)).
Proof.
  intros Hfree Htaken. apply first_with_None in Hfree.
  destruct (first_with_exists _ _ _ Htaken) as [account Hfound].
  unfold userExists, bind, get_prop. rewrite findByField_run, Hfree.
  cbn [fmap option_fmap option_map isNil option_nilable negb].
  rewrite findByField_run. cbn [rows looked_up with_calls].
  unfold obj at 1. cbn [heap looked_up with_calls]. fold (obj l w).
  rewrite Hfound. reflexivity.
Qed.

Lemma userExists_free this l w :
  (∀ row, row ∈ rows w → ¬ has "username" (get "username" (obj l w)) row) →
  (∀ row, row ∈ rows w → ¬ has "email" (get "email" (obj l w)) row) →
  userExists this l w =
  (Ok false,
   looked_up "email" (get "email" (obj l w))
     (looked_up "username" (get "username" (obj l w)) w)).
Proof.
  intros Hfree Hfree'. apply first_with_None in Hfree, Hfree'.
  unfold userExists, bind, get_prop. rewrite findByField_run, Hfree.
  cbn [fmap option_fmap option_map isNil option_nilable negb].
  rewrite findByField_run. cbn [rows looked_up with_calls].
  unfold obj at 1. cbn [heap looked_up with_calls]. fold (obj l w).
  rewrite Hfree'. reflexivity.
Qed.

(** Sending the activation email touches neither the table, nor the calls on
    the model, nor the caller's objects. *)
Lemma sendAccountActivationEmail_frame this lib user w :
  let w' := (sendAccountActivationEmail this lib user w).2 in
  rows w' = rows w ∧ calls w' = calls w ∧ heap w' = heap w.
Proof.
  unfold sendAccountActivationEmail, bind, generateActivationToken, tokenService_generate,
    emailService_sendAccountActivationEmail.
  cbv zeta.
  destruct (clients (oauthConfig this) !! 0%nat) as [client|]; [|done].
  destruct (jwt_generate _ _ _) as [accessToken|e]; [|done].
  by destruct (email_accepts _ _).
Qed.

Lemma create_run_free this lib l createdBy w :
  let u := get "username" (obj l w) in
  let e := get "email" (obj l w) in
  let record := stamped_for_create lib createdBy (clock w) (obj l w) in
  let row := match record !! "id" with
             | Some _ => record
             | None => <["id" := VNum (next_id (rows w))]> record
             end in
  (∀ row, row ∈ rows w → ¬ has "username" u row) →
  (∀ row, row ∈ rows w → ¬ has "email" e row) →
  create this lib l createdBy w =
  sendAccountActivationEmail this lib row
    (with_calls (calls w ++ [FindOne "username" u; FindOne "email" e; Create record])
       (with_rows (rows w ++ [row]) (assign l record w))).
Proof.
  intros u e record row Hfree Hfree'.
  unfold create, bind. rewrite userExists_free by done. fold u e.
  rewrite prepareUserPartialForCreate_run.
  unfold deref. rewrite obj_assign.
  unfold obj at 1. cbn [heap looked_up with_calls clock]. fold (obj l w). fold record.
  unfold Users_create. cbn [rows assign with_heap looked_up with_calls calls].
  fold row. rewrite <- !app_assoc. reflexivity.
Qed.

(** C3. When a row has the partial's username or the partial's email, [create]
    throws the already-exists error and writes nothing: the table and the
    caller's objects are as they were and the only calls on the model are
    lookups, the username's first, and the email's only when the username is
    free. *)
Theorem create_rejects_duplicates this lib (l : nat) (createdBy : Z) (w : World) :
  let u := get "username" (obj l w) in
  let e := get "email" (obj l w) in
  (∃ row, row ∈ rows w ∧ (has "username" u row ∨ has "email" e row)) →
  ∃ w',
    create this lib l createdBy w = (Throw already_exists, w')
    ∧ rows w' = rows w
    ∧ heap w' = heap w
    ∧ outbox w' = outbox w
    ∧ calls w' = calls w ++ FindOne "username" u ::
        (if decide (Exists (has "username" u) (rows w)) then [] else [FindOne "email" e]).
Proof.
  intros u e (row & Hin & Hdup).
  destruct (decide (Exists (has "username" u) (rows w))) as [Hname|Hname].
  - apply Exists_exists in Hname.
    unfold create, bind. rewrite userExists_username_taken by done.
    eexists. split; [reflexivity|]. done.
  - assert (∀ r, r ∈ rows w → ¬ has "username" u r) as Hfree.
    { intros r Hr Hhas. apply Hname, Exists_exists. eauto. }
    destruct Hdup as [Hdup|Hdup]; [by destruct (Hfree row Hin)|].
    unfold create, bind. rewrite userExists_email_taken by eauto.
    eexists. split; [reflexivity|]. fold u e.
    cbn [rows heap outbox calls Logger_log looked_up with_calls with_console snd].
    repeat split. by rewrite <- app_assoc.
Qed.

Lemma create_rejects_duplicates_witness :
  (∃ w',
     create demo_service demo_lib 1 1 demo_world = (Throw already_exists, w')
     ∧ rows w' = [alice]
     ∧ calls w' = [FindOne "username" (VStr "alice")])
  ∧ ∃ w',
      create demo_service demo_lib 5 1 demo_world = (Throw already_exists, w')
      ∧ rows w' = [alice]
      ∧ calls w' = [FindOne "username" (VStr "carol"); FindOne "email" (VStr "a@x.com")].
Proof.
  split.
  - destruct (create_rejects_duplicates demo_service demo_lib 1 1 demo_world)
      as (w' & Hrun & Hrows & _ & _ & Hcalls).
    + exists alice. split; [left | left; reflexivity].
    + exists w'. split; [exact Hrun|]. split; [exact Hrows|].
      rewrite Hcalls. vm_compute. reflexivity.
  - destruct (create_rejects_duplicates demo_service demo_lib 5 1 demo_world)
      as (w' & Hrun & Hrows & _ & _ & Hcalls).
    + exists alice. split; [left | right; reflexivity].
    + exists w'. split; [exact Hrun|]. split; [exact Hrows|].
      rewrite Hcalls. vm_compute. reflexivity.
Defined.

(** C2. When no row has the partial's username or email, the record [create]
    hands to the store has createdAt and updatedAt at the current time,
    createdBy and updatedBy at the creator's id, active false whatever the
    input said, and as password the digest of the partial's password, hence
    not the plaintext whenever the digest differs from its input; the other
    fields are the partial's, and the row the store appends is that record
    with its id. *)
Theorem create_hands_stamped_record this lib (l : nat) (createdBy : Z) (w : World) :
  let partial := obj l w in
  let u := get "username" partial in
  let e := get "email" partial in
  let w' := (create this lib l createdBy w).2 in
  (∀ row, row ∈ rows w → ¬ has "username" u row) →
  (∀ row, row ∈ rows w → ¬ has "email" e row) →
  ∃ record row,
    calls w' = calls w ++ [FindOne "username" u; FindOne "email" e; Create record]
    ∧ rows w' = rows w ++ [row]
    ∧ (∀ k, k ≠ "id" → row !! k = record !! k)
    ∧ get "createdAt" record = VDate (clock w)
    ∧ get "updatedAt" record = VDate (clock w)
    ∧ get "createdBy" record = VNum createdBy
    ∧ get "updatedBy" record = VNum createdBy
    ∧ get "active" record = VBool false
    ∧ get "password" record = encrypt lib (get "password" partial)
    ∧ (encrypt lib (get "password" partial) ≠ get "password" partial →
         get "password" record ≠ get "password" partial)
    ∧ (∀ k, k ∉ ["createdAt"; "updatedAt"; "createdBy"; "updatedBy"; "active"; "password"] →
         record !! k = partial !! k).
Proof.
  intros partial u e w' Hfree Hfree'. subst w'.
  rewrite create_run_free by done. fold partial u e.
  set (record := stamped_for_create lib createdBy (clock w) partial).
  set (row := match record !! "id" with
              | Some _ => record
              | None => <["id" := VNum (next_id (rows w))]> record
              end).
  destruct (sendAccountActivationEmail_frame this lib row
    (with_calls (calls w ++ [FindOne "username" u; FindOne "email" e; Create record])
       (with_rows (rows w ++ [row]) (assign l record w)))) as (Hrows & Hcalls & _).
  exists record, row. split; [exact Hcalls|]. split; [exact Hrows|].
  split.
  { intros k Hk. subst row. destruct (record !! "id"); [done|].
    by rewrite lookup_insert_ne. }
  destruct (stamped_for_create_fields lib createdBy (clock w) partial)
    as (Hca & Hua & Hcb & Hub & Hact & Hpw & Hother).
  fold record in Hca, Hua, Hcb, Hub, Hact, Hpw, Hother.
  repeat split; try done. by rewrite Hpw.
Qed.

Lemma create_hands_stamped_record_witness :
  ∃ record row,
    calls (create demo_service demo_lib 0 1 demo_world).2
      = [FindOne "username" (VStr "bob"); FindOne "email" (VStr "b@x.com"); Create record]
    ∧ rows (create demo_service demo_lib 0 1 demo_world).2 = [alice; row]
    ∧ get "createdBy" record = VNum 1
    ∧ get "active" record = VBool false
    ∧ get "password" record = VStr "sha:q"
    ∧ get "password" record ≠ VStr "q".
Proof.
  destruct (create_hands_stamped_record demo_service demo_lib 0 1 demo_world)
    as (record & row & Hcalls & Hrows & _ & _ & _ & Hcb & _ & Hact & Hpw & Hne & _).
  - intros row Hin. apply list_elem_of_singleton in Hin. subst row.
    vm_compute. discriminate.
  - intros row Hin. apply list_elem_of_singleton in Hin. subst row.
    vm_compute. discriminate.
  - exists record, row.
    split; [exact Hcalls|]. split; [exact Hrows|]. split; [exact Hcb|].
    split; [exact Hact|]. split; [exact Hpw|].
    apply Hne. vm_compute. discriminate.
Defined.

(** C10 as stated fails on an empty password.  After [update] on the
    caller's [{id: 1, password: ''}] the object has been stamped in place, and
    its password is still [''], not the digest ['sha:']. *)
Lemma update_blank_password_in_place :
  obj 2 demo_world !! "password" = Some (VStr "")
  ∧ get "updatedBy" (obj 2 (update demo_lib 2 9 demo_world).2) = VNum 9
  ∧ get "password" (obj 2 (update demo_lib 2 9 demo_world).2) = VStr ""
  ∧ encrypt demo_lib (VStr "") = VStr "sha:"
  ∧ get "password" (obj 2 (update demo_lib 2 9 demo_world).2) ≠ encrypt demo_lib (VStr "").
Proof.
  repeat split; [vm_compute; reflexivity ..|]. vm_compute. discriminate.
Qed.

(** C10 (amended). [create] and [update] assign to the caller's object.  After
    a [create] that found neither the username nor the email, whatever its
    outcome, the caller's reference holds the very record that was handed to
    the store: audit fields stamped, active false, password replaced by its
    digest.  After any [update] it holds the record handed to the store:
    updatedAt and updatedBy overwritten, and the password replaced by its
    digest when it is truthy (a non-empty string), left as it is otherwise.
    No other object of the caller changes. *)
Theorem partial_mutated_in_place this lib (l : nat) (actor : Z) (w : World) :
  let partial := obj l w in
  let created := (create this lib l actor w).2 in
  let updated := (update lib l actor w).2 in
  ((∀ row, row ∈ rows w → ¬ has "username" (get "username" partial) row) →
   (∀ row, row ∈ rows w → ¬ has "email" (get "email" partial) row) →
   ∃ record,
     heap created !! l = Some record
     ∧ last (calls created) = Some (Create record)
     ∧ get "createdAt" record = VDate (clock w)
     ∧ get "updatedAt" record = VDate (clock w)
     ∧ get "createdBy" record = VNum actor
     ∧ get "updatedBy" record = VNum actor
     ∧ get "active" record = VBool false
     ∧ get "password" record = encrypt lib (get "password" partial)
     ∧ ∀ l', l ≠ l' → heap created !! l' = heap w !! l')
  ∧ ∃ record,
      heap updated !! l = Some record
      ∧ last (calls updated) = Some (Update record (get "id" partial))
      ∧ get "updatedAt" record = VDate (clock w)
      ∧ get "updatedBy" record = VNum actor
      ∧ (truthy (get "password" partial) = true →
           get "password" record = encrypt lib (get "password" partial))
      ∧ (truthy (get "password" partial) = false →
           record !! "password" = partial !! "password")
      ∧ ∀ l', l ≠ l' → heap updated !! l' = heap w !! l'.
Proof.
  intros partial created updated. split.
  - intros Hfree Hfree'. subst created.
    rewrite create_run_free by done. fold partial.
    set (record := stamped_for_create lib actor (clock w) partial).
    set (row := match record !! "id" with
                | Some _ => record
                | None => <["id" := VNum (next_id (rows w))]> record
                end).
    match goal with
    | |- context [sendAccountActivationEmail this lib row ?w0] =>
        destruct (sendAccountActivationEmail_frame this lib row w0) as (_ & Hcalls & Hheap)
    end.
    exists record. rewrite Hheap, Hcalls.
    cbn [heap calls with_calls with_rows].
    split; [apply heap_assign|]. split; [by rewrite last_app|].
    destruct (stamped_for_create_fields lib actor (clock w) partial)
      as (Hca & Hua & Hcb & Hub & Hact & Hpw & _).
    fold record in Hca, Hua, Hcb, Hub, Hact, Hpw.
    repeat split; try done. intros l' Hne. by apply heap_assign_other.
  - subst updated. rewrite update_run. fold partial.
    set (record := stamped_for_update lib actor (clock w) partial).
    exists record. cbn [snd heap calls with_calls with_rows].
    split; [apply heap_assign|]. split; [apply last_snoc|].
    destruct (stamped_for_update_fields lib actor (clock w) partial)
      as (Hua & Hub & Htruthy & Hfalsy & _).
    fold record in Hua, Hub, Htruthy, Hfalsy.
    repeat split; try done. intros l' Hne. by apply heap_assign_other.
Qed.

Lemma partial_mutated_in_place_witness :
  (create demo_service_no_mail demo_lib 0 1 demo_world).1 = Throw (Error "SMTP down")
  ∧ (∃ record,
       heap (create demo_service_no_mail demo_lib 0 1 demo_world).2 !! 0%nat = Some record
       ∧ get "active" record = VBool false
       ∧ get "password" record = VStr "sha:q")
  ∧ ∃ record,
      heap (update demo_lib 3 1 demo_world).2 !! 3%nat = Some record
      ∧ get "updatedBy" record = VNum 1
      ∧ get "password" record = VStr "sha:n".
Proof.
  split; [vm_compute; reflexivity|]. split.
  - destruct (partial_mutated_in_place demo_service_no_mail demo_lib 0 1 demo_world)
      as (Hcreate & _).
    destruct Hcreate as (record & Hheap & _ & _ & _ & _ & _ & Hact & Hpw & _).
    + intros row Hin. apply list_elem_of_singleton in Hin. subst row.
      vm_compute. discriminate.
    + intros row Hin. apply list_elem_of_singleton in Hin. subst row.
      vm_compute. discriminate.
    + exists record. split; [exact Hheap|]. split; [exact Hact | exact Hpw].
  - destruct (partial_mutated_in_place demo_service demo_lib 3 1 demo_world)
      as (_ & record & Hheap & _ & _ & Hby & Hhashed & _).
    exists record. split; [exact Hheap|]. split; [exact Hby|].
    rewrite Hhashed; reflexivity.
Defined.

(** ** Scenarios *)

(** The scenario of the specification: the first account is stored inactive,
    with a hashed password and its creator; a second one with the same
    username and another email is refused. *)
Example scenario_create_twice :
  let first := create demo_service demo_lib 0 1 empty_world in
  let second := create demo_service demo_lib 1 1 first.2 in
  first.1 = Ok tt
  ∧ map_to_list <$> rows first.2 =
      [[("createdAt", VDate 1000); ("createdBy", VNum 1); ("username", VStr "alice");
        ("updatedAt", VDate 1000); ("updatedBy", VNum 1); ("email", VStr "a@x.com");
        ("id", VNum 1); ("active", VBool false); ("password", VStr "sha:p")]]
  ∧ second.1 = Throw already_exists
  ∧ rows second.2 = rows first.2.
Proof. vm_compute. repeat split. Qed.

(** Activation of an existing account sets its flag. *)
Example scenario_activate :
  let done := activate demo_service demo_lib "subject-1" demo_world in
  done.1 = Ok tt
  ∧ get "active" <$> rows done.2 = [VBool true]
  ∧ console done.2 = [(Debug, "Decoded token 1")].
Proof. vm_compute. repeat split. Qed.

(** * Further properties *)

(** ** The activation email *)





(** The world in which the activation email of a fresh account is sent. *)
Lemma create_run_created this lib l createdBy w :
  let u := get "username" (obj l w) in
  let e := get "email" (obj l w) in
  let record := stamped_for_create lib createdBy (clock w) (obj l w) in
  let row := created_row lib l createdBy w in
  (∀ row, row ∈ rows w → ¬ has "username" u row) →
  (∀ row, row ∈ rows w → ¬ has "email" e row) →
  create this lib l createdBy w =
  sendAccountActivationEmail this lib row
    (with_calls (calls w ++ [FindOne "username" u; FindOne "email" e; Create record])
       (with_rows (rows w ++ [row]) (assign l record w))).
Proof. intros u e record row Hfree Hfree'. by apply create_run_free. Qed.






(** ** Creation, again *)

Lemma create_when_taken this lib l createdBy w :
  (∃ row, row ∈ rows w
          ∧ (has "username" (get "username" (obj l w)) row
             ∨ has "email" (get "email" (obj l w)) row)) →
  ∃ w',
    create this lib l createdBy w = (Throw already_exists, w')
    ∧ rows w' = rows w ∧ heap w' = heap w ∧ outbox w' = outbox w.
Proof.
  intros (row & Hin & Hdup).
  destruct (decide (Exists (has "username" (get "username" (obj l w))) (rows w)))
    as [Hname|Hname].
  - apply Exists_exists in Hname.
    unfold create, bind. rewrite userExists_username_taken by done.
    eexists. split; [reflexivity|]. done.
  - assert (∀ r, r ∈ rows w → ¬ has "username" (get "username" (obj l w)) r) as Hfree.
    { intros r Hr Hhas. apply Hname, Exists_exists. eauto. }
    destruct Hdup as [Hdup|Hdup]; [by destruct (Hfree row Hin)|].
    unfold create, bind. rewrite userExists_email_taken by eauto.
    eexists. split; [reflexivity|]. done.
Qed.

(** What [create] does to the table and to the caller's object, in all
    cases. *)
Lemma create_effect this lib l createdBy w :
  let w' := (create this lib l createdBy w).2 in
  ((∃ row, row ∈ rows w
           ∧ (has "username" (get "username" (obj l w)) row
              ∨ has "email" (get "email" (obj l w)) row))
   ∧ rows w' = rows w ∧ heap w' = heap w)
  ∨ ((∀ r, r ∈ rows w → ¬ has "username" (get "username" (obj l w)) r)
     ∧ (∀ r, r ∈ rows w → ¬ has "email" (get "email" (obj l w)) r)
     ∧ rows w' = rows w ++ [created_row lib l createdBy w]
     ∧ obj l w' = stamped_for_create lib createdBy (clock w) (obj l w)).
Proof.
  intros w'. subst w'.
  destruct (decide (Exists (λ row, has "username" (get "username" (obj l w)) row
                                   ∨ has "email" (get "email" (obj l w)) row) (rows w)))
    as [Htaken|Hfree].
  - left. apply Exists_exists in Htaken. split; [done|].
    destruct (create_when_taken this lib l createdBy w Htaken) as (w' & -> & Hrows & Hheap & _).
    done.
  - right.
    assert (∀ r, r ∈ rows w → ¬ (has "username" (get "username" (obj l w)) r
                                 ∨ has "email" (get "email" (obj l w)) r)) as Hno.
    { intros r Hr Hhas. apply Hfree, Exists_exists. eauto. }
    assert (∀ r, r ∈ rows w → ¬ has "username" (get "username" (obj l w)) r) as Hu
      by (intros r Hr Hhas; apply (Hno r Hr); by left).
    assert (∀ r, r ∈ rows w → ¬ has "email" (get "email" (obj l w)) r) as He
      by (intros r Hr Hhas; apply (Hno r Hr); by right).
    split; [done|]. split; [done|].
    rewrite create_run_created by done.
    match goal with
    | |- context [sendAccountActivationEmail this lib ?row ?w0] =>
        destruct (sendAccountActivationEmail_frame this lib row w0) as (Hrows & _ & Hheap)
    end.
    split; [exact Hrows|].
    unfold obj at 1. rewrite Hheap. cbn [heap with_calls with_rows].
    by rewrite heap_assign.
Qed.


Lemma verify_run this lib (credentials : Credentials) w :
  verify this lib credentials w =
  (match first_with "username" (VStr (username credentials)) (rows w) with
   | None => Throw invalid_credentials
   | Some account =>
       if verify_ lib (VStr (password credentials))
            (get "password" (deserialize (jsonConverter this) account))
       then Ok (deserialize (jsonConverter this) account)
       else Throw invalid_credentials
   end,
   looked_up "username" (VStr (username credentials)) w).
Proof.
  unfold verify, bind, Users_findOne.
  destruct (first_with _ _ _) as [account|]; [|done].
  by destruct (verify_ _ _ _).
Qed.










(** ** Activation, again *)

Lemma apply_update_activated subject (row : Obj) :
  apply_update {[ "active" := VBool true ]} subject row = activated subject row.
Proof.
  unfold apply_update, activated.
  destruct (decide (has "id" subject row)); [|done].
  by rewrite insert_union_singleton_l.
Qed.

Lemma activated_id subject subject' (row : Obj) :
  has "id" subject' (activated subject row) ↔ has "id" subject' row.
Proof.
  unfold activated, has.
  destruct (decide (row !! "id" = Some subject)); [|done].
  by rewrite lookup_insert_ne.
Qed.

Lemma activated_twice subject (row : Obj) :
  activated subject (activated subject row) = activated subject row.
Proof.
  unfold activated at 1.
  destruct (decide (has "id" subject (activated subject row))) as [Hid|Hid]; [|done].
  apply activated_id in Hid. unfold activated.
  destruct (decide (has "id" subject row)); [|done].
  apply insert_insert_eq.
Qed.

(** X6. What [activate] changes.  With a token that verifies and names a
    subject, [activate] returns normally; the table keeps its rows in their
    order, every row whose id is the subject has active = true, no other
    column of any row changes, and rows with another id are untouched.  No
    caller object is touched and no mail is sent. *)
Theorem activate_sets_only_active this lib (token : string) (jwtToken : Obj) (w : World) :
  let subject := get "userId" jwtToken in
  let w' := (activate this lib token w).2 in
  jwt_verify (tokenService this) token (accessTokenSecret (oauthConfig this)) (clock w)
    = Ok jwtToken →
  isNil subject = false →
  (activate this lib token w).1 = Ok tt
  ∧ rows w' = activated subject <$> rows w
  ∧ (∀ i row, rows w !! i = Some row →
       ∃ row', rows w' !! i = Some row'
               ∧ (∀ k, k ≠ "active" → row' !! k = row !! k)
               ∧ (has "id" subject row → row' !! "active" = Some (VBool true))
               ∧ (¬ has "id" subject row → row' = row))
  ∧ heap w' = heap w
  ∧ outbox w' = outbox w.
Proof.
  intros subject w' Hverified Hsubject. subst w'.
  rewrite (activate_run this lib token jwtToken w Hverified Hsubject).
  fold subject. cbn [fst snd rows heap outbox with_calls with_rows with_console].
  assert (apply_update {[ "active" := VBool true ]} subject <$> rows w
          = activated subject <$> rows w) as ->.
  { apply list_fmap_ext. intros ? row _. apply apply_update_activated. }
  repeat split.
  intros i row Hi. exists (activated subject row).
  split; [by rewrite list_lookup_fmap, Hi|].
  unfold activated.
  destruct (decide (has "id" subject row)) as [Hid|Hid].
  - split; [|split]; [| intros _; apply lookup_insert_eq | done].
    intros k Hk. by rewrite lookup_insert_ne.
  - done.
Qed.

Lemma activate_sets_only_active_witness :
  rows (activate demo_service demo_lib "subject-1" demo_world).2
    = [<["active" := VBool true]> alice]
  ∧ heap (activate demo_service demo_lib "subject-1" demo_world).2 = heap demo_world.
Proof.
  destruct (activate_sets_only_active demo_service demo_lib "subject-1"
              {[ "userId" := VNum 1 ]} demo_world) as (_ & Hrows & _ & Hheap & _).
  - reflexivity.
  - reflexivity.
  - split; [rewrite Hrows; reflexivity | exact Hheap].
Defined.

(** X7. An activation token can be replayed.  Once [activate] has accepted a
    token, a second call with the same token (that the token service still
    accepts) returns normally again and leaves the table as the first call
    left it: neither the token nor the active flag is consulted. *)
Theorem activate_replay this lib (token : string) (jwtToken : Obj) (w : World) :
  let subject := get "userId" jwtToken in
  let w1 := (activate this lib token w).2 in
  let w2 := (activate this lib token w1).2 in
  jwt_verify (tokenService this) token (accessTokenSecret (oauthConfig this)) (clock w)
    = Ok jwtToken →
  isNil subject = false →
  (activate this lib token w).1 = Ok tt
  ∧ (activate this lib token w1).1 = Ok tt
  ∧ rows w2 = rows w1
  ∧ calls w2 = calls w ++ [Update {[ "active" := VBool true ]} subject;
                           Update {[ "active" := VBool true ]} subject].
Proof.
  intros subject w1 w2 Hverified Hsubject. subst w2 w1.
  rewrite (activate_run this lib token jwtToken w Hverified Hsubject).
  fold subject. cbn [fst snd].
  rewrite (activate_run this lib token jwtToken); [| exact Hverified | exact Hsubject].
  fold subject. cbn [fst snd rows calls with_calls with_rows with_console].
  repeat split.
  - rewrite <- list_fmap_compose. apply list_fmap_ext. intros ? row _. cbn.
    rewrite !apply_update_activated. apply activated_twice.
  - by rewrite <- app_assoc.
Qed.

Lemma activate_replay_witness :
  rows (activate demo_service demo_lib "subject-1"
          (activate demo_service demo_lib "subject-1" demo_world).2).2
    = rows (activate demo_service demo_lib "subject-1" demo_world).2.
Proof.
  destruct (activate_replay demo_service demo_lib "subject-1"
              {[ "userId" := VNum 1 ]} demo_world) as (_ & _ & Hrows & _).
  - reflexivity.
  - reflexivity.
  - exact Hrows.
Defined.

(** ** Update, again *)

Lemma apply_update_keeps values whereId field (value : Val) (row : Obj) :
  values !! field = Some value → has field value row →
  has field value (apply_update values whereId row).
Proof.
  intros Hvalues Hrow. unfold apply_update.
  destruct (decide (has "id" whereId row)); [|done].
  unfold has. by rewrite (lookup_union_Some_l _ _ _ _ Hvalues).
Qed.

Lemma apply_update_sets values whereId field (value : Val) (row : Obj) :
  values !! field = Some value → has "id" whereId row →
  has field value (apply_update values whereId row).
Proof.
  intros Hvalues Hid. unfold apply_update.
  destruct (decide (has "id" whereId row)); [|done].
  unfold has. by rewrite (lookup_union_Some_l _ _ _ _ Hvalues).
Qed.

Lemma stamped_for_update_other lib updatedBy now (o : Obj) k :
  k ∉ ["updatedAt"; "updatedBy"; "password"] →
  stamped_for_update lib updatedBy now o !! k = o !! k.
Proof.
  destruct (stamped_for_update_fields lib updatedBy now o) as (_ & _ & _ & _ & Hother).
  apply Hother.
Qed.

(** X8. [update] makes no uniqueness check.  When the partial carries a
    username that another stored account already holds, [update] returns
    normally and the account with the partial's id takes that username: two
    rows of the table then hold it, and usernames are no longer unique. *)
Theorem update_can_share_username lib (l : nat) (updatedBy : Z) (w : World)
    (i j : nat) (holder target : Obj) (u : Val) :
  let partial := obj l w in
  let w' := (update lib l updatedBy w).2 in
  rows w !! i = Some holder →
  rows w !! j = Some target →
  i ≠ j →
  has "username" u holder →
  has "id" (get "id" partial) target →
  partial !! "username" = Some u →
  (update lib l updatedBy w).1 = Ok tt
  ∧ (∃ holder' target',
       rows w' !! i = Some holder' ∧ rows w' !! j = Some target'
       ∧ has "username" u holder' ∧ has "username" u target')
  ∧ ¬ unique_on "username" (rows w').
Proof.
  intros partial w' Hi Hj Hij Hholder Htarget Hu. subst w'.
  rewrite update_run. cbn [fst snd rows with_calls with_rows].
  fold partial.
  set (record := stamped_for_update lib updatedBy (clock w) partial).
  assert (record !! "username" = Some u) as Hrecord.
  { unfold record. rewrite stamped_for_update_other; [done|].
    rewrite !not_elem_of_cons. repeat split; try done. apply not_elem_of_nil. }
  assert (∃ holder' target',
            (apply_update record (get "id" partial) <$> rows w) !! i = Some holder'
            ∧ (apply_update record (get "id" partial) <$> rows w) !! j = Some target'
            ∧ has "username" u holder' ∧ has "username" u target') as Hshared.
  { eexists _, _. rewrite !list_lookup_fmap, Hi, Hj. cbn.
    split; [done|]. split; [done|]. split.
    - by apply apply_update_keeps.
    - by apply apply_update_sets. }
  split; [done|]. split; [exact Hshared|].
  intros Huniq. destruct Hshared as (holder' & target' & Hi' & Hj' & Hh & Ht).
  apply Hij. by apply (Huniq i j holder' target' u).
Qed.

Lemma update_can_share_username_witness :
  (update demo_lib 0 9 two_accounts).1 = Ok tt
  ∧ get "username" <$> rows (update demo_lib 0 9 two_accounts).2
    = [VStr "alice"; VStr "alice"].
Proof.
  destruct (update_can_share_username demo_lib 0 9 two_accounts 0 1 alice bob (VStr "alice"))
    as (Hok & _ & _); [reflexivity | reflexivity | lia | reflexivity ..|].
  split; [exact Hok | vm_compute; reflexivity].
Defined.

(** X9. A partial object handed to [update] twice has its password hashed
    twice.  [update] writes the digest into the caller's object; a second
    call with the same object finds the digest in the password field and,
    when it is truthy, stores the digest of the digest. *)
Theorem update_twice_hashes_twice lib (l : nat) (updatedBy again : Z) (w : World) :
  let secret := get "password" (obj l w) in
  let w1 := (update lib l updatedBy w).2 in
  let w2 := (update lib l again w1).2 in
  truthy secret = true →
  truthy (encrypt lib secret) = true →
  get "password" (obj l w1) = encrypt lib secret
  ∧ get "password" (obj l w2) = encrypt lib (encrypt lib secret)
  ∧ ∃ record,
      last (calls w2) = Some (Update record (get "id" (obj l w)))
      ∧ get "password" record = encrypt lib (encrypt lib secret).
Proof.
  intros secret w1 w2 Hsecret Hdigest.
  assert (∀ by_ w0, obj l (update lib l by_ w0).2
                    = stamped_for_update lib by_ (clock w0) (obj l w0)) as Hobj.
  { intros by_ w0. rewrite update_run. cbn [snd].
    unfold obj at 1. cbn [heap with_calls with_rows]. by rewrite heap_assign. }
  assert (∀ by_ now (o : Obj), truthy (get "password" o) = true →
            get "password" (stamped_for_update lib by_ now o)
            = encrypt lib (get "password" o)) as Hhash.
  { intros by_ now o Ho.
    destruct (stamped_for_update_fields lib by_ now o) as (_ & _ & Hpw & _).
    by apply Hpw. }
  assert (get "password" (obj l w1) = encrypt lib secret) as H1.
  { unfold w1. rewrite Hobj. by apply Hhash. }
  assert (get "password" (obj l w2) = encrypt lib (encrypt lib secret)) as H2.
  { unfold w2. rewrite Hobj, Hhash; rewrite H1; done. }
  split; [exact H1|]. split; [exact H2|].
  exists (obj l w2). split; [|exact H2].
  unfold w2 at 1. rewrite update_run. cbn [snd calls with_calls with_rows].
  rewrite last_snoc. f_equal. f_equal.
  - unfold w2. by rewrite Hobj.
  - unfold w1. rewrite Hobj. unfold get.
    rewrite stamped_for_update_other; [done|].
    rewrite !not_elem_of_cons. repeat split; try done. apply not_elem_of_nil.
Qed.

Lemma update_twice_hashes_twice_witness :
  get "password" (obj 3 (update demo_lib 3 9 (update demo_lib 3 9 demo_world).2).2)
    = VStr "sha:sha:n".
Proof.
  destruct (update_twice_hashes_twice demo_lib 3 9 9 demo_world) as (_ & Htwice & _);
    [reflexivity | reflexivity |].
  rewrite Htwice. reflexivity.
Defined.

Lemma apply_update_has values whereId field (value : Val) (row : Obj) :
  values !! field = None →
  has field value (apply_update values whereId row) ↔ has field value row.
Proof.
  intros Hvalues. unfold apply_update.
  destruct (decide (has "id" whereId row)); [|done].
  unfold has. by rewrite lookup_union_r.
Qed.

Lemma first_with_apply_update values whereId field (value : Val) (rs : list Obj) :
  values !! field = None →
  first_with field value (apply_update values whereId <$> rs)
  = apply_update values whereId <$> first_with field value rs.
Proof.
  intros Hvalues. unfold first_with.
  induction rs as [|r rs IH]; [done|].
  rewrite fmap_cons, !filter_cons.
  destruct (decide (has field value r)) as [Hr|Hr].
  - rewrite decide_True by (by apply apply_update_has). done.
  - rewrite decide_False by (by rewrite apply_update_has). exact IH.
Qed.

(** X10. Round trip from [update] to [verify].  After [update] with a
    partial that carries the id of the one account stored under a username, a
    truthy new password and no username of its own, [verify] with that
    username and the new plaintext password returns the account as updated,
    provided the digest of the password verifies against it and the converter
    carries the password over. *)
Theorem update_then_verify this lib (l : nat) (updatedBy : Z) (w : World)
    (account : Obj) (u p : string) :
  let partial := obj l w in
  let record := stamped_for_update lib updatedBy (clock w) partial in
  let w1 := (update lib l updatedBy w).2 in
  let user := deserialize (jsonConverter this) (record ∪ account) in
  account ∈ rows w →
  has "username" (VStr u) account →
  (∀ other, other ∈ rows w → has "username" (VStr u) other → other = account) →
  has "id" (get "id" partial) account →
  partial !! "username" = None →
  get "password" partial = VStr p →
  truthy (VStr p) = true →
  verify_ lib (VStr p) (encrypt lib (VStr p)) = true →
  get "password" user = get "password" (record ∪ account) →
  verify this lib {| username := u; password := p |} w1
    = (Ok user, looked_up "username" (VStr u) w1)
  ∧ get "updatedBy" (record ∪ account) = VNum updatedBy.
Proof.
  intros partial record w1 user Hin Hname Huniq Hid Hnone Hp Htruthy Hcrypto Hconv.
  destruct (stamped_for_update_fields lib updatedBy (clock w) partial)
    as (_ & Hby & Hpw & _ & _).
  fold record in Hby, Hpw.
  assert (record !! "username" = None) as Hrecord.
  { unfold record. rewrite stamped_for_update_other; [done|].
    rewrite !not_elem_of_cons. repeat split; try done. apply not_elem_of_nil. }
  assert (∀ k, record !! k ≠ None → get k (record ∪ account) = get k record) as Hleft.
  { intros k Hk. unfold get. destruct (record !! k) as [v|] eqn:Hv; [|done].
    by rewrite (lookup_union_Some_l _ _ _ _ Hv). }
  assert (∀ k v, get k record = v → v ≠ VUndefined → record !! k ≠ None) as Hset.
  { intros k v Hk Hv Hnot. unfold get in Hk. rewrite Hnot in Hk. by subst v. }
  split.
  - rewrite verify_run. cbn [username password].
    assert (rows w1 = apply_update record (get "id" partial) <$> rows w) as ->.
    { unfold w1. by rewrite update_run. }
    rewrite first_with_apply_update by done.
    rewrite (first_with_unique _ _ _ account Hin Hname Huniq). cbn.
    unfold apply_update. rewrite decide_True by done. fold user.
    rewrite Hconv, Hleft.
    + rewrite Hpw by (by rewrite Hp). by rewrite Hp, Hcrypto.
    + unfold record, stamped_for_update. fold partial.
      rewrite Hp, Htruthy. by rewrite lookup_insert_eq.
  - rewrite Hleft; [exact Hby|]. by apply (Hset _ (VNum updatedBy)).
Qed.

Lemma update_then_verify_witness :
  ∃ user,
    (verify demo_service demo_lib {| username := "alice"; password := "n" |}
       (update demo_lib 3 9 demo_world).2).1 = Ok user
    ∧ get "password" user = VStr "sha:n"
    ∧ get "id" user = VNum 1.
Proof.
  destruct (update_then_verify demo_service demo_lib 3 9 demo_world alice "alice" "n")
    as (Hrun & _).
  - left.
  - reflexivity.
  - intros other Hin _. by apply list_elem_of_singleton in Hin.
  - reflexivity.
  - reflexivity.
  - reflexivity.
  - reflexivity.
  - vm_compute. reflexivity.
  - reflexivity.
  - eexists. rewrite Hrun. split; [reflexivity|]. split; vm_compute; reflexivity.
Defined.

(** ** From creation to activation *)





(** ** Sequences of requests *)

Lemma apply_update_id values whereId (row : Obj) :
  values !! "id" = None ∨ values !! "id" = Some whereId →
  apply_update values whereId row !! "id" = row !! "id".
Proof.
  intros Hvalues. unfold apply_update.
  destruct (decide (has "id" whereId row)) as [Hid|Hid]; [|done].
  destruct Hvalues as [Hnone | Hsame].
  - by rewrite lookup_union_r.
  - by rewrite (lookup_union_Some_l _ _ _ _ Hsame).
Qed.

Lemma ids_apply_update values whereId (rs : list Obj) :
  values !! "id" = None ∨ values !! "id" = Some whereId →
  ids (apply_update values whereId <$> rs) = ids rs.
Proof.
  intros Hvalues. unfold ids. rewrite <- list_fmap_compose.
  apply list_fmap_ext. intros ? row _. cbn. by apply apply_update_id.
Qed.

Lemma activate_ids this lib token w :
  ids (rows (activate this lib token w).2) = ids (rows w).
Proof.
  unfold activate, bind, tokenService_verify.
  destruct (jwt_verify _ _ _ _) as [jwtToken|e]; [|done].
  destruct (isNil (get "userId" jwtToken)); [done|].
  cbn [snd rows Logger_log Users_update with_calls with_rows with_console].
  apply ids_apply_update. by left.
Qed.

Lemma update_ids lib l updatedBy w :
  ids (rows (update lib l updatedBy w).2) = ids (rows w).
Proof.
  rewrite update_run. cbn [snd rows with_calls with_rows].
  apply ids_apply_update.
  rewrite stamped_for_update_other
    by (rewrite !not_elem_of_cons; repeat split; try done; apply not_elem_of_nil).
  unfold get. destruct (obj l w !! "id"); [by right | by left].
Qed.

Lemma serve_ids this lib (r : Request) (w : World) :
  ids (rows w) `prefix_of` ids (rows (serve this lib r w)).
Proof.
  destruct r as [credentials | userId | field value | token | l createdBy | l updatedBy];
    cbn [serve].
  - by rewrite verify_run.
  - unfold find, bind, Users_findOne. by destruct (first_with _ _ _).
  - by rewrite findByField_run.
  - by rewrite activate_ids.
  - destruct (create_effect this lib l createdBy w) as [(_ & -> & _) | (_ & _ & -> & _)];
      [done|].
    unfold ids. rewrite fmap_app. by apply prefix_app_r.
  - by rewrite update_ids.
Qed.

(** X12. No sequence of requests deletes an account or changes an id.
    Whatever calls are made on the service, in whatever order and with
    whatever outcome, the ids of the rows that were in the table are still
    there, in the same positions; rows are only ever appended. *)
Theorem requests_keep_ids this lib (requests : list Request) (w : World) :
  ids (rows w) `prefix_of` ids (rows (serve_all this lib requests w))
  ∧ (length (rows w) ≤ length (rows (serve_all this lib requests w)))%nat.
Proof.
  assert (ids (rows w) `prefix_of` ids (rows (serve_all this lib requests w))) as Hprefix.
  { unfold serve_all. revert w. induction requests as [|r requests IH]; intros w; [done|].
    cbn [foldl]. etrans; [apply (serve_ids this lib r) | apply IH]. }
  split; [exact Hprefix|].
  apply prefix_length in Hprefix. unfold ids in Hprefix.
  by rewrite !length_fmap in Hprefix.
Qed.






(** ** The logger *)

Lemma Logger_getInstance_first (s : Logger.State) :
  Logger.instance s = None →
  Logger.getInstance s
  = (Logger.constructed s,
     {| Logger.instance := Some (Logger.constructed s);
        Logger.constructed := S (Logger.constructed s);
        Logger.lines := Logger.lines s |}).
Proof. intros Hnone. unfold Logger.getInstance. by rewrite Hnone. Qed.

Lemma Logger_getInstance_again (s : Logger.State) (i : nat) :
  Logger.instance s = Some i → Logger.getInstance s = (i, s).
Proof. intros Hsome. unfold Logger.getInstance. by rewrite Hsome. Qed.

Lemma Logger_log_frame level message optionalParams (s : Logger.State) :
  Logger.instance (Logger.log level message optionalParams s) = Logger.instance s
  ∧ Logger.constructed (Logger.log level message optionalParams s) = Logger.constructed s
  ∧ ∃ method,
      Logger.lines (Logger.log level message optionalParams s)
      = Logger.lines s ++ [(method, message, optionalParams)].
Proof. destruct level; repeat split; by eexists. Qed.

Lemma Logger_run_again (actions : list Logger.Action) (s : Logger.State) (i : nat) :
  Logger.instance s = Some i →
  Forall (eq i) (Logger.run actions s).1
  ∧ Logger.instance (Logger.run actions s).2 = Some i
  ∧ Logger.constructed (Logger.run actions s).2 = Logger.constructed s
  ∧ Logger.lines s `prefix_of` Logger.lines (Logger.run actions s).2.
Proof.
  revert s. induction actions as [|a actions IH]; intros s Hsome; [done|].
  destruct a as [|level message optionalParams]; cbn [Logger.run];
    rewrite (Logger_getInstance_again s i Hsome).
  - specialize (IH s Hsome). destruct (Logger.run actions s) as [got s'].
    destruct IH as (Hall & Hinst & Hcons & Hlines). repeat split; try done.
    by constructor.
  - destruct (Logger_log_frame level message optionalParams s)
      as (Hinst0 & Hcons0 & method & Hlines0).
    specialize (IH (Logger.log level message optionalParams s)).
    destruct (Logger.run actions _) as [got s'].
    destruct IH as (Hall & Hinst & Hcons & Hlines); [by rewrite Hinst0|].
    repeat split; try done.
    + by constructor.
    + cbn [snd] in *. by rewrite Hcons, Hcons0.
    + cbn [snd] in *. etrans; [|exact Hlines]. rewrite Hlines0. by apply prefix_app_r.
Qed.

(** X14. The logger is a singleton.  In every run of [getInstance] and
    [log] calls, from every state of the static field, all calls obtain one
    and the same instance: the stored one, or the one the first call
    constructs.  The constructor runs at most once, and only when the field
    was empty; the lines already written to the console stay, in order. *)
Theorem logger_single_instance (actions : list Logger.Action) (s : Logger.State) :
  let the_one := default (Logger.constructed s) (Logger.instance s) in
  let result := Logger.run actions s in
  Forall (eq the_one) result.1
  ∧ length result.1 = length actions
  ∧ Logger.instance result.2
    = match actions with [] => Logger.instance s | _ => Some the_one end
  ∧ Logger.constructed result.2
    = match actions, Logger.instance s with
      | _ :: _, None => S (Logger.constructed s)
      | _, _ => Logger.constructed s
      end
  ∧ Logger.lines s `prefix_of` Logger.lines result.2.
Proof.
  intros the_one result. subst result the_one.
  assert (length (Logger.run actions s).1 = length actions) as Hlen.
  { revert s. induction actions as [|a actions IH]; intros s; [done|].
    destruct a as [|level message optionalParams]; cbn [Logger.run].
    - destruct (Logger.getInstance s) as [i s1]. specialize (IH s1).
      destruct (Logger.run actions s1). cbn in *. by rewrite IH.
    - destruct (Logger.getInstance s) as [i s1].
      specialize (IH (Logger.log level message optionalParams s1)).
      destruct (Logger.run actions _). cbn in *. by rewrite IH. }
  split; [|split; [exact Hlen|]]; clear Hlen.
  - destruct (Logger.instance s) as [i|] eqn:Hinst.
    + cbn [default]. by apply Logger_run_again.
    + destruct actions as [|a actions]; [done|].
      destruct a as [|level message optionalParams]; cbn [Logger.run];
        rewrite (Logger_getInstance_first s Hinst).
      * match goal with |- context [Logger.run actions ?s1] =>
          destruct (Logger_run_again actions s1 (Logger.constructed s)) as (Hall & _); [done|];
          destruct (Logger.run actions s1) end.
        by constructor.
      * match goal with |- context [Logger.run actions ?s1] =>
          destruct (Logger_run_again actions s1 (Logger.constructed s)) as (Hall & _);
            [by destruct level|];
          destruct (Logger.run actions s1) end.
        by constructor.
  - destruct (Logger.instance s) as [i|] eqn:Hinst.
    + destruct (Logger_run_again actions s i Hinst) as (_ & Hi & Hc & Hl).
      by destruct actions.
    + destruct actions as [|a actions]; [done|].
      destruct a as [|level message optionalParams]; cbn [Logger.run];
        rewrite (Logger_getInstance_first s Hinst).
      * match goal with |- context [Logger.run actions ?s1] =>
          destruct (Logger_run_again actions s1 (Logger.constructed s)) as (_ & Hi & Hc & Hl); [done|];
          destruct (Logger.run actions s1) end.
        done.
      * match goal with |- context [Logger.run actions ?s1] =>
          destruct (Logger_run_again actions s1 (Logger.constructed s)) as (_ & Hi & Hc & Hl);
            [by destruct level|];
          destruct (Logger.run actions s1) end.
        cbn [snd] in *. split; [done|]. split.
        -- rewrite Hc. by destruct level.
        -- etrans; [|exact Hl]. destruct level; by apply prefix_app_r.
Qed.
